(** * Round-Robin scheduling policy: a shallow embedding of
      [src/src/RRSchedulingPolicy.cpp] and the properties of its four
      operations.

    The C++ class keeps a [std::queue<Pid>] and three [int] members it
    inherits from [SchedulingPolicy] ([runningPid], [quantum],
    [quantumClock]).  The queue is a list whose head is the front of the
    queue; the [int] members are integers of [Z] kept in the 32-bit signed
    range by an explicit wrap-around.  Every member function becomes a
    function from the object before the call to the returned value and the
    object after it. *)

From Stdlib Require Import ZArith List Lia Bool Permutation.
Import ListNotations.
Open Scope Z_scope.

(** ** The [int] type of the target (g++, 32 bits, two's complement) *)

Module Int.

Definition min_int : Z := - 2 ^ 31.
Definition max_int : Z := 2 ^ 31 - 1.

Definition in_range (z : Z) : Prop := min_int <= z <= max_int.

(** Reduction of a mathematical integer to its 32-bit signed
    representative.  ISO C++ leaves signed overflow undefined; the
    wrap-around is what the two's-complement machine computes. *)
Definition wrap (z : Z) : Z := (z - min_int) mod 2 ^ 32 + min_int.

(** [a - b] on [int]; [x -= 1] is [sub x 1]. *)
Definition sub (a b : Z) : Z := wrap (a - b).

End Int.

(** ** Data *)

(** [typedef int Pid;] *)
Definition Pid : Type := Z.

(** The members of an [RRSchedulingPolicy] object that its member
    functions read or write.  ([sys] is set to [NULL] by the constructor
    and never read.) *)
Record policy : Type := mkPolicy {
  readyQueue   : list Pid;   (* front of the queue first *)
  runningPid   : Pid;
  quantum      : Z;
  quantumClock : Z
}.

(** The calls the simulator can make on a policy, and what they return. *)
Inductive call : Type :=
| NewProcess (pid : Pid)
| Dispatch
| Preempt
| ResetPolicy.

Inductive result : Type :=
| RVoid
| RPid (pid : Pid)
| RBool (b : bool).

Section Policy.

(** The sentinel [IDLE] is declared in a header that is not part of the
    sources at hand; the development is parametric in its value. *)
Variable IDLE : Pid.

(** *** The member functions *)

(** [readyQueue.push(pid);] *)
Definition newProcess (pid : Pid) (s : policy) : policy :=
  mkPolicy (readyQueue s ++ [pid]) (runningPid s) (quantum s) (quantumClock s).

(** [if (readyQueue.empty()) return IDLE;] otherwise the front is
    popped into [runningPid], the clock is set to [quantum] and
    decremented once. *)
Definition dispatch (s : policy) : Pid * policy :=
  match readyQueue s with
  | [] => (IDLE, s)
  | front :: rest =>
      (front, mkPolicy rest front (quantum s) (Int.sub (quantum s) 1))
  end.

(** [if (quantumClock == 0) { push(runningPid); runningPid = IDLE;
    return true; } else { quantumClock -= 1; return false; }] *)
Definition preempt (s : policy) : bool * policy :=
  if quantumClock s =? 0
  then (true,
        mkPolicy (readyQueue s ++ [runningPid s]) IDLE
                 (quantum s) (quantumClock s))
  else (false,
        mkPolicy (readyQueue s) (runningPid s)
                 (quantum s) (Int.sub (quantumClock s) 1)).

(** [swap(readyQueue, empty); quantumClock = quantum;] *)
Definition resetPolicy (s : policy) : policy :=
  mkPolicy [] (runningPid s) (quantum s) (quantum s).

(** The constructor: [quantum = simQuantum; resetPolicy();].  [base] is
    the object as the base-class constructor [SchedulingPolicy()] left
    it (that constructor is not part of the sources at hand); the
    constructor contains no test of [simQuantum] and no [throw]. *)
Definition RRSchedulingPolicy (base : policy) (simQuantum : Z) : policy :=
  resetPolicy
    (mkPolicy (readyQueue base) (runningPid base) simQuantum
              (quantumClock base)).

(** *** Sequences of calls *)

Definition step (c : call) (s : policy) : result * policy :=
  match c with
  | NewProcess pid => (RVoid, newProcess pid s)
  | Dispatch => let (p, s') := dispatch s in (RPid p, s')
  | Preempt => let (b, s') := preempt s in (RBool b, s')
  | ResetPolicy => (RVoid, resetPolicy s)
  end.

(** The object after a sequence of calls, and the values returned on
    the way. *)
Fixpoint run (cs : list call) (s : policy) : list result * policy :=
  match cs with
  | [] => ([], s)
  | c :: cs' =>
      let (r, s1) := step c s in
      let (rs, s2) := run cs' s1 in
      (r :: rs, s2)
  end.

Definition final (cs : list call) (s : policy) : policy := snd (run cs s).

(** The pids returned by the [dispatch()] calls of a run, in order. *)
Fixpoint dispatched (rs : list result) : list Pid :=
  match rs with
  | [] => []
  | RPid p :: rs' => p :: dispatched rs'
  | _ :: rs' => dispatched rs'
  end.

(** [n] calls of [preempt()] in a row, with the values they return. *)
Fixpoint preempt_n (n : nat) (s : policy) : list bool * policy :=
  match n with
  | O => ([], s)
  | S n' =>
      let (b, s1) := preempt s in
      let (bs, s2) := preempt_n n' s1 in
      (b :: bs, s2)
  end.

(** [n] calls of [dispatch()] in a row, with the pids they return. *)
Fixpoint dispatch_n (n : nat) (s : policy) : list Pid * policy :=
  match n with
  | O => ([], s)
  | S n' =>
      let (p, s1) := dispatch s in
      let (ps, s2) := dispatch_n n' s1 in
      (p :: ps, s2)
  end.

(** *** Predicates on objects and on call sequences *)

(** The processes the policy holds: the one on the CPU, if any, and
    those waiting. *)
Definition running (s : policy) : list Pid :=
  if runningPid s =? IDLE then [] else [runningPid s].

Definition tracked (s : policy) : list Pid := running s ++ readyQueue s.

Definition is_tracked (pid : Pid) (s : policy) : bool :=
  existsb (Z.eqb pid) (tracked s).

(** A call is well formed in an object when a [newProcess] brings a pid
    that is not tracked and a [preempt] finds a process on the CPU. *)
Definition wf_call (c : call) (s : policy) : bool :=
  match c with
  | NewProcess pid => negb (is_tracked pid s)
  | Preempt => negb (runningPid s =? IDLE)
  | Dispatch | ResetPolicy => true
  end.

Fixpoint wf_calls (cs : list call) (s : policy) : bool :=
  match cs with
  | [] => true
  | c :: cs' => wf_call c s && wf_calls cs' (snd (step c s))
  end.

(** No real process tracked in [s] is missing from [s']. *)
Definition kept (s s' : policy) : Prop :=
  forall p : Pid, p <> IDLE -> In p (tracked s) -> In p (tracked s').

Definition is_reset (c : call) : bool :=
  match c with ResetPolicy => true | _ => false end.

Definition no_reset (cs : list call) : bool :=
  forallb (fun c => negb (is_reset c)) cs.

Definition clock_in_range (s : policy) : Prop :=
  0 <= quantumClock s <= quantum s.

(** Every [dispatch()] of the sequence is called with the CPU idle, as
    the simulator is meant to call it. *)
Fixpoint idle_dispatch (cs : list call) (s : policy) : bool :=
  match cs with
  | [] => true
  | c :: cs' =>
      match c with
      | Dispatch => runningPid s =? IDLE
      | _ => true
      end && idle_dispatch cs' (snd (step c s))
  end.

(** What a construction can end in.  The constructor of the source has a
    single, normal, exit. *)
Inductive outcome : Type :=
| Constructed (s : policy)
| ConstructionFailure.

Definition construct (base : policy) (simQuantum : Z) : outcome :=
  Constructed (RRSchedulingPolicy base simQuantum).

(** *** Three statements that are examined below *)

(** After every well-formed sequence of calls no pid is tracked twice,
    and every real process the policy held at the start or was given by
    a [newProcess] on the way is still tracked. *)
Definition never_duplicates_nor_loses : Prop :=
  forall (s : policy) (cs : list call),
    NoDup (tracked s) -> wf_calls cs s = true ->
    NoDup (tracked (final cs s)) /\
    (forall p : Pid, p <> IDLE ->
       In p (tracked s) \/ In (NewProcess p) cs ->
       In p (tracked (final cs s))).

(** In every sequence of calls in which [A] is given to the policy and
    later [B], which is not waiting at that time, every [dispatch()]
    that then returns [B] comes after one that returned [A]. *)
Definition fifo_in_every_sequence : Prop :=
  forall (s : policy) (A B : Pid) (t2 t3 : list call),
    ~ In B (readyQueue (final t2 (newProcess A s))) ->
    forall pre post : list Pid,
      dispatched
        (fst (run t3 (newProcess B (final t2 (newProcess A s))))) =
        pre ++ B :: post ->
      In A (dispatched (fst (run t2 (newProcess A s))) ++ pre).

(** Misuse is met by one of two explicit answers: no construction with a
    quantum that is not positive, or a [preempt()] without a running
    process that returns false and changes nothing. *)
Definition misuse_is_resolved : Prop :=
  (forall (base : policy) (q : Z),
     q <= 0 -> construct base q = ConstructionFailure) \/
  (forall s : policy, runningPid s = IDLE -> preempt s = (false, s)).

(** *** Compound uses of the member functions *)

(** The pids of [l] handed to the policy by successive [newProcess]
    calls, first pid first. *)
Definition newProcesses (l : list Pid) (s : policy) : policy :=
  fold_left (fun s' pid => newProcess pid s') l s.

(** One time slice as the simulator drives it: a [dispatch()] and then
    [quantum] calls of [preempt()]. *)
Definition time_slice (s : policy) : Pid * policy :=
  let (p, s1) := dispatch s in
  (p, snd (preempt_n (Z.to_nat (quantum s)) s1)).

(** [n] time slices in a row, with the pids dispatched. *)
Fixpoint time_slices (n : nat) (s : policy) : list Pid * policy :=
  match n with
  | O => ([], s)
  | S n' =>
      let (p, s1) := time_slice s in
      let (ps, s2) := time_slices n' s1 in
      (p :: ps, s2)
  end.

(** The pids that the calls of a run push onto the ready queue
    ([readyQueue.push] in [newProcess] and in the first branch of
    [preempt]), in order. *)
Fixpoint pushed (cs : list call) (s : policy) : list Pid :=
  match cs with
  | [] => []
  | c :: cs' =>
      match c with
      | NewProcess pid => [pid]
      | Preempt => if quantumClock s =? 0 then [runningPid s] else []
      | Dispatch | ResetPolicy => []
      end ++ pushed cs' (snd (step c s))
  end.

(** The pids that the calls of a run pop from the ready queue
    ([readyQueue.pop] in the second branch of [dispatch]), in order. *)
Fixpoint popped (cs : list call) (s : policy) : list Pid :=
  match cs with
  | [] => []
  | c :: cs' =>
      match c with
      | Dispatch =>
          match readyQueue s with
          | [] => []
          | front :: _ => [front]
          end
      | NewProcess _ | Preempt | ResetPolicy => []
      end ++ popped cs' (snd (step c s))
  end.

(** A call is proper when a [newProcess] does not bring the sentinel
    and a [preempt] finds a process on the CPU. *)
Definition proper_call (c : call) (s : policy) : bool :=
  match c with
  | NewProcess pid => negb (pid =? IDLE)
  | Preempt => negb (runningPid s =? IDLE)
  | Dispatch | ResetPolicy => true
  end.

Fixpoint proper_calls (cs : list call) (s : policy) : bool :=
  match cs with
  | [] => true
  | c :: cs' => proper_call c s && proper_calls cs' (snd (step c s))
  end.

(** The runners that the [dispatch()] calls of a run overwrite: a
    [dispatch()] that finds the queue non-empty assigns [runningPid]
    without pushing the process that was running. *)
Fixpoint overwritten (cs : list call) (s : policy) : list Pid :=
  match cs with
  | [] => []
  | c :: cs' =>
      match c with
      | Dispatch =>
          match readyQueue s with
          | [] => []
          | _ :: _ => running s
          end
      | NewProcess _ | Preempt | ResetPolicy => []
      end ++ overwritten cs' (snd (step c s))
  end.

(** The pids that the [resetPolicy()] calls of a run discard: the
    content of the ready queue at the time of the call. *)
Fixpoint discarded (cs : list call) (s : policy) : list Pid :=
  match cs with
  | [] => []
  | c :: cs' =>
      match c with
      | ResetPolicy => readyQueue s
      | NewProcess _ | Dispatch | Preempt => []
      end ++ discarded cs' (snd (step c s))
  end.

(** ** Facts on [int] arithmetic *)

Lemma wrap_in_range (z : Z) : Int.in_range z -> Int.wrap z = z.
Proof.
  unfold Int.in_range, Int.wrap, Int.min_int, Int.max_int.
  intros Hz. rewrite Z.mod_small; lia.
Qed.

Lemma sub_1_exact (z : Z) :
  Int.min_int < z <= Int.max_int -> Int.sub z 1 = z - 1.
Proof.
  intros Hz. unfold Int.sub. apply wrap_in_range.
  unfold Int.in_range. lia.
Qed.

(** ** [dispatch] *)

(** C1: with a non-empty ready queue, [dispatch()] removes the head of
    the queue, makes it [runningPid], leaves [quantumClock] one below
    [quantum] (the assignment followed by the decrement) and returns
    the new [runningPid].  The decrement is the [int] one; it is the
    mathematical [quantum - 1] for every quantum above the least
    [int]. *)
Theorem dispatch_nonempty (s : policy) (front : Pid) (rest : list Pid) :
  readyQueue s = front :: rest ->
  dispatch s =
    (front, mkPolicy rest front (quantum s) (Int.sub (quantum s) 1)) /\
  (Int.min_int < quantum s <= Int.max_int ->
   quantumClock (snd (dispatch s)) = quantum s - 1).
Proof.
  intros Hq. unfold dispatch. rewrite Hq. cbn.
  split; [reflexivity | apply sub_1_exact].
Qed.

(** C4: with an empty ready queue, [dispatch()] returns [IDLE] and the
    object is the one it was called on. *)
Theorem dispatch_empty (s : policy) :
  readyQueue s = [] -> dispatch s = (IDLE, s).
Proof.
  intros Hq. unfold dispatch. now rewrite Hq.
Qed.

(** ** [preempt] *)

Lemma preempt_expired (s : policy) :
  quantumClock s = 0 ->
  preempt s =
    (true, mkPolicy (readyQueue s ++ [runningPid s]) IDLE (quantum s) 0).
Proof.
  intros H0. unfold preempt. rewrite H0. reflexivity.
Qed.

Lemma preempt_ticking (s : policy) :
  quantumClock s <> 0 ->
  preempt s =
    (false, mkPolicy (readyQueue s) (runningPid s) (quantum s)
                     (Int.sub (quantumClock s) 1)).
Proof.
  intros Hne. unfold preempt.
  destruct (Z.eqb_spec (quantumClock s) 0); [contradiction | reflexivity].
Qed.

(** C3: called with [quantumClock = 0] while a process is running,
    [preempt()] appends [runningPid] behind everything already in the
    ready queue, sets [runningPid] to [IDLE] and returns true; called
    with any other clock it only decrements the clock and returns
    false. *)
Theorem preempt_spec (s : policy) :
  runningPid s <> IDLE ->
  (quantumClock s = 0 ->
   preempt s =
     (true, mkPolicy (readyQueue s ++ [runningPid s]) IDLE
                     (quantum s) (quantumClock s))) /\
  (quantumClock s <> 0 ->
   preempt s =
     (false, mkPolicy (readyQueue s) (runningPid s) (quantum s)
                      (Int.sub (quantumClock s) 1)) /\
   (Int.min_int < quantumClock s <= Int.max_int ->
    quantumClock (snd (preempt s)) = quantumClock s - 1)).
Proof.
  intros _. split.
  - intros H0. rewrite (preempt_expired s H0). now rewrite H0.
  - intros Hne. rewrite (preempt_ticking s Hne). split; [reflexivity |].
    cbn. apply sub_1_exact.
Qed.

Lemma preempt_n_countdown (n : nat) :
  forall s : policy,
    quantumClock s = Z.of_nat n -> Z.of_nat n <= Int.max_int ->
    preempt_n (S n) s =
      (repeat false n ++ [true],
       mkPolicy (readyQueue s ++ [runningPid s]) IDLE (quantum s) 0).
Proof.
  induction n as [| n IH]; intros s Hc Hmax.
  - cbn [preempt_n]. rewrite (preempt_expired s Hc). reflexivity.
  - change (preempt_n (S (S n)) s)
      with (let (b, s1) := preempt s in
            let (bs, s2) := preempt_n (S n) s1 in (b :: bs, s2)).
    rewrite preempt_ticking by lia.
    rewrite IH.
    + reflexivity.
    + cbn. rewrite sub_1_exact; unfold Int.min_int; lia.
    + lia.
Qed.

(** C2: for a positive quantum [q], after a [dispatch()] that took a
    process from the queue, [q] calls of [preempt()] in a row return
    false [q - 1] times and then true. *)
Theorem preempt_after_quantum (s : policy) (front : Pid) (rest : list Pid) :
  readyQueue s = front :: rest ->
  0 < quantum s <= Int.max_int ->
  fst (preempt_n (Z.to_nat (quantum s)) (snd (dispatch s))) =
    repeat false (Z.to_nat (quantum s) - 1) ++ [true].
Proof.
  intros Hq Hpos. unfold dispatch. rewrite Hq. cbn [snd].
  remember (Z.to_nat (quantum s) - 1)%nat as n eqn:Hn.
  replace (Z.to_nat (quantum s)) with (S n) by lia.
  rewrite preempt_n_countdown.
  - reflexivity.
  - cbn. rewrite sub_1_exact; unfold Int.min_int; lia.
  - lia.
Qed.

(** ** Sequences of calls, one call at a time *)

Lemma run_cons (c : call) (cs : list call) (s : policy) :
  run (c :: cs) s =
    (fst (step c s) :: fst (run cs (snd (step c s))),
     snd (run cs (snd (step c s)))).
Proof.
  cbn [run]. destruct (step c s) as [r s1]. cbn [fst snd].
  now destruct (run cs s1).
Qed.

Lemma final_cons (c : call) (cs : list call) (s : policy) :
  final (c :: cs) s = final cs (snd (step c s)).
Proof.
  unfold final. now rewrite run_cons.
Qed.

Lemma step_dispatch (s : policy) :
  step Dispatch s = (RPid (fst (dispatch s)), snd (dispatch s)).
Proof.
  cbn [step]. now destruct (dispatch s).
Qed.

Lemma step_preempt (s : policy) :
  step Preempt s = (RBool (fst (preempt s)), snd (preempt s)).
Proof.
  cbn [step]. now destruct (preempt s).
Qed.

(** ** [resetPolicy] *)

Lemma resetPolicy_clears (s : policy) :
  readyQueue (resetPolicy s) = [] /\
  quantumClock (resetPolicy s) = quantum s /\
  quantum (resetPolicy s) = quantum s /\
  dispatch (resetPolicy s) = (IDLE, resetPolicy s).
Proof.
  repeat split.
Qed.

(** C5: [resetPolicy()] empties the ready queue and sets [quantumClock]
    to [quantum], but it does not touch [runningPid].  A process [p]
    dispatched before the reset is still the running one after it, and
    once the clock of the fresh quantum has run down [preempt()] puts
    [p] into the emptied queue, from which [dispatch()] returns it.
    Here with a quantum of 3, from a freshly constructed policy. *)
Theorem resetPolicy_keeps_runningPid (base : policy) (p : Pid) :
  let s := final [NewProcess p; Dispatch] (RRSchedulingPolicy base 3) in
  runningPid s = p /\
  resetPolicy s = mkPolicy [] p 3 3 /\
  run [Preempt; Preempt; Preempt; Preempt; Dispatch] (resetPolicy s) =
    ([RBool false; RBool false; RBool false; RBool true; RPid p],
     mkPolicy [] p 3 2).
Proof.
  cbv zeta. split; [reflexivity | split; reflexivity].
Qed.

(** ** The range of [quantumClock] *)

Lemma constructed_state (base : policy) (q : Z) :
  RRSchedulingPolicy base q = mkPolicy [] (runningPid base) q q.
Proof.
  reflexivity.
Qed.

Lemma step_clock_in_range (c : call) (s : policy) :
  0 < quantum s <= Int.max_int ->
  clock_in_range s ->
  clock_in_range (snd (step c s)) /\ quantum (snd (step c s)) = quantum s.
Proof.
  unfold clock_in_range. intros Hq Hc. destruct c as [pid | | |].
  - cbn. lia.
  - rewrite step_dispatch. cbn [snd]. unfold dispatch.
    destruct (readyQueue s) as [| front rest]; cbn.
    + lia.
    + rewrite sub_1_exact; unfold Int.min_int; lia.
  - rewrite step_preempt. cbn [snd]. unfold preempt.
    destruct (Z.eqb_spec (quantumClock s) 0) as [H0 | Hne]; cbn.
    + lia.
    + rewrite sub_1_exact; unfold Int.min_int; lia.
  - cbn. lia.
Qed.

Lemma run_clock_in_range (cs : list call) :
  forall s : policy,
    0 < quantum s <= Int.max_int ->
    clock_in_range s ->
    clock_in_range (final cs s) /\ quantum (final cs s) = quantum s.
Proof.
  induction cs as [| c cs IH]; intros s Hq Hc.
  - now split.
  - rewrite final_cons.
    destruct (step_clock_in_range c s Hq Hc) as [Hc1 Hq1].
    destruct (IH (snd (step c s))) as [Hc2 Hq2]; [lia | assumption |].
    split; [assumption | lia].
Qed.

(** C8: a policy constructed with a positive quantum [q] has
    [0 <= quantumClock <= quantum = q] after every sequence of calls,
    hence after each call of any sequence (the well-formed ones
    included). *)
Theorem quantumClock_in_range (base : policy) (q : Z) (cs : list call) :
  0 < q <= Int.max_int ->
  let s := final cs (RRSchedulingPolicy base q) in
  0 <= quantumClock s <= quantum s /\ quantum s = q.
Proof.
  intros Hq. cbv zeta.
  apply (run_clock_in_range cs (RRSchedulingPolicy base q)).
  - rewrite constructed_state. cbn. exact Hq.
  - rewrite constructed_state. unfold clock_in_range. cbn. lia.
Qed.

(** ** [preempt] without a running process *)

Lemma dispatch_n_drain (l : list Pid) :
  forall (s : policy) (l' : list Pid),
    readyQueue s = l ++ l' ->
    fst (dispatch_n (length l) s) = l /\
    readyQueue (snd (dispatch_n (length l) s)) = l' /\
    quantum (snd (dispatch_n (length l) s)) = quantum s.
Proof.
  induction l as [| x l IH]; intros s l' Hq.
  - cbn. auto.
  - set (s1 := mkPolicy (l ++ l') x (quantum s) (Int.sub (quantum s) 1)).
    assert (Hd : dispatch s = (x, s1)) by (unfold dispatch; now rewrite Hq).
    cbn [length dispatch_n]. rewrite Hd.
    destruct (IH s1 l' eq_refl) as (Hps & Hrest & Hquant).
    destruct (dispatch_n (length l) s1) as [ps s2]. cbn [fst snd] in *.
    subst ps. auto.
Qed.

(** C10: called with no running process ([runningPid = IDLE]) and
    [quantumClock = 0], [preempt()] appends the sentinel [IDLE] to the
    ready queue and returns true.  Once the processes that waited before
    it have been dispatched, the next [dispatch()] finds a non-empty
    queue, pops the sentinel and returns [IDLE], with the clock armed as
    for a real process. *)
Theorem preempt_idle_enqueues_IDLE (s : policy) :
  runningPid s = IDLE ->
  quantumClock s = 0 ->
  preempt s =
    (true, mkPolicy (readyQueue s ++ [IDLE]) IDLE (quantum s) 0) /\
  let waiting := dispatch_n (length (readyQueue s)) (snd (preempt s)) in
  fst waiting = readyQueue s /\
  readyQueue (snd waiting) = [IDLE] /\
  dispatch (snd waiting) =
    (IDLE, mkPolicy [] IDLE (quantum s) (Int.sub (quantum s) 1)).
Proof.
  intros Hidle H0. rewrite (preempt_expired s H0), Hidle.
  split; [reflexivity |]. cbv zeta. cbn [snd].
  set (s1 := mkPolicy (readyQueue s ++ [IDLE]) IDLE (quantum s) 0).
  destruct (dispatch_n_drain (readyQueue s) s1 [IDLE] eq_refl)
    as (Hps & Hrest & Hquant).
  repeat split; try assumption.
  unfold dispatch. rewrite Hrest, Hquant. reflexivity.
Qed.

(** ** No pid twice *)

Lemma is_tracked_In (pid : Pid) (s : policy) :
  is_tracked pid s = true <-> In pid (tracked s).
Proof.
  unfold is_tracked. rewrite existsb_exists. split.
  - intros (x & Hin & Heq). apply Z.eqb_eq in Heq. now subst x.
  - intros Hin. exists pid. split; [assumption | apply Z.eqb_refl].
Qed.

Lemma running_idle (s : policy) : runningPid s = IDLE -> running s = [].
Proof.
  intros H. unfold running. now rewrite H, Z.eqb_refl.
Qed.

Lemma running_busy (s : policy) :
  runningPid s <> IDLE -> running s = [runningPid s].
Proof.
  intros H. unfold running.
  destruct (Z.eqb_spec (runningPid s) IDLE); [contradiction | reflexivity].
Qed.

Lemma NoDup_running (s : policy) : NoDup (running s).
Proof.
  unfold running. destruct (runningPid s =? IDLE); repeat constructor.
  intros [].
Qed.

Lemma tracked_newProcess (pid : Pid) (s : policy) :
  tracked (newProcess pid s) = tracked s ++ [pid].
Proof.
  unfold tracked, running. cbn. now rewrite app_assoc.
Qed.

Lemma NoDup_snoc (l : list Pid) (x : Pid) :
  NoDup l -> ~ In x l -> NoDup (l ++ [x]).
Proof.
  intros Hl Hx. apply (Permutation_NoDup (Permutation_cons_append l x)).
  now constructor.
Qed.

Lemma step_nodup (c : call) (s : policy) :
  wf_call c s = true ->
  NoDup (tracked s) -> NoDup (tracked (snd (step c s))).
Proof.
  intros Hwf Hnd. destruct c as [pid | | |].
  - cbn [step snd]. rewrite tracked_newProcess. apply NoDup_snoc.
    + assumption.
    + cbn in Hwf. apply negb_true_iff in Hwf.
      intros Hin. apply is_tracked_In in Hin. congruence.
  - rewrite step_dispatch. cbn [snd]. unfold dispatch.
    destruct (readyQueue s) as [| front rest] eqn:Hq; cbn [snd].
    + assumption.
    + unfold tracked in Hnd. rewrite Hq in Hnd.
      apply NoDup_app_remove_l in Hnd.
      unfold tracked, running. cbn.
      destruct (front =? IDLE); cbn.
      * now inversion Hnd.
      * assumption.
  - cbn in Hwf. apply negb_true_iff, Z.eqb_neq in Hwf.
    rewrite step_preempt. cbn [snd]. unfold preempt.
    destruct (quantumClock s =? 0); cbn [snd].
    + unfold tracked in *. rewrite (running_busy s Hwf) in Hnd.
      rewrite running_idle by reflexivity. cbn [app readyQueue] in *.
      inversion Hnd; subst. now apply NoDup_snoc.
    + assumption.
  - cbn [step snd]. unfold tracked. cbn [readyQueue resetPolicy].
    rewrite app_nil_r. apply NoDup_running.
Qed.

Lemma run_nodup (cs : list call) :
  forall s : policy,
    NoDup (tracked s) -> wf_calls cs s = true ->
    NoDup (tracked (final cs s)).
Proof.
  induction cs as [| c cs IH]; intros s Hnd Hwf.
  - assumption.
  - cbn [wf_calls] in Hwf. apply andb_true_iff in Hwf as [Hc Hcs].
    rewrite final_cons. apply IH; [now apply step_nodup | assumption].
Qed.

Lemma constructed_nodup (base : policy) (q : Z) :
  NoDup (tracked (RRSchedulingPolicy base q)).
Proof.
  unfold tracked. rewrite constructed_state. cbn [readyQueue].
  rewrite app_nil_r. apply NoDup_running.
Qed.

(** ** No pid lost *)

Lemma step_kept (c : call) (s : policy) :
  wf_call c s = true ->
  is_reset c = false ->
  idle_dispatch [c] s = true ->
  kept s (snd (step c s)).
Proof.
  intros Hwf Hreset Hidle p Hp Hin. destruct c as [pid | | |].
  - cbn [step snd]. rewrite tracked_newProcess. apply in_or_app. now left.
  - cbn in Hidle. rewrite andb_true_r in Hidle. apply Z.eqb_eq in Hidle.
    rewrite step_dispatch. cbn [snd]. unfold dispatch.
    unfold tracked in Hin. rewrite (running_idle s Hidle) in Hin.
    cbn [app] in Hin.
    destruct (readyQueue s) as [| front rest] eqn:Hq; cbn [snd].
    + destruct Hin.
    + unfold tracked, running. cbn.
      destruct Hin as [Heq | Hin].
      * subst front.
        destruct (Z.eqb_spec p IDLE); [contradiction | now left].
      * apply in_or_app. now right.
  - cbn in Hwf. apply negb_true_iff, Z.eqb_neq in Hwf.
    rewrite step_preempt. cbn [snd]. unfold preempt.
    destruct (quantumClock s =? 0); cbn [snd].
    + unfold tracked in *. rewrite (running_busy s Hwf) in Hin.
      rewrite running_idle by reflexivity. cbn [app readyQueue] in *.
      apply in_or_app. destruct Hin as [Heq | Hin].
      * right. now left.
      * now left.
    + exact Hin.
  - discriminate.
Qed.

Lemma run_kept (cs : list call) :
  forall s : policy,
    wf_calls cs s = true ->
    no_reset cs = true ->
    idle_dispatch cs s = true ->
    forall p : Pid, p <> IDLE ->
      In p (tracked s) \/ In (NewProcess p) cs ->
      In p (tracked (final cs s)).
Proof.
  induction cs as [| c cs IH]; intros s Hwf Hnr Hid p Hp Hin.
  - destruct Hin as [Hin | []]. exact Hin.
  - cbn [wf_calls] in Hwf. apply andb_true_iff in Hwf as [Hc Hcs].
    cbn [no_reset forallb] in Hnr. apply andb_true_iff in Hnr as [Hr Hrs].
    apply negb_true_iff in Hr.
    cbn [idle_dispatch] in Hid. apply andb_true_iff in Hid as [Hi His].
    rewrite final_cons. apply IH; try assumption.
    destruct Hin as [Hin | [Heq | Hin]].
    + left. apply (step_kept c s); try assumption.
      cbn [idle_dispatch]. now rewrite Hi.
    + left. subst c. cbn [step snd]. rewrite tracked_newProcess.
      apply in_or_app. right. now left.
    + now right.
Qed.

(** *** The account of every pid *)

Lemma dispatched_cons (r : result) (rs : list result) :
  dispatched (r :: rs) = dispatched [r] ++ dispatched rs.
Proof.
  now destruct r.
Qed.

Lemma step_waiting_account (c : call) (s : policy) (p : Pid) :
  In p (readyQueue s) ->
  In p (readyQueue (snd (step c s))) \/
  In p (dispatched [fst (step c s)]) \/
  In p (discarded [c] s).
Proof.
  intros Hin. destruct c as [pid | | |].
  - left. cbn. apply in_or_app. now left.
  - rewrite step_dispatch. cbn [fst snd dispatched]. unfold dispatch.
    destruct (readyQueue s) as [| front rest] eqn:Hq; cbn [fst snd readyQueue].
    + destruct Hin.
    + destruct Hin as [Heq | Hin].
      * right. left. now left.
      * now left.
  - left. rewrite step_preempt. cbn [snd]. unfold preempt.
    destruct (quantumClock s =? 0); cbn [snd readyQueue].
    + apply in_or_app. now left.
    + exact Hin.
  - right. right. cbn [discarded]. now rewrite app_nil_r.
Qed.

Lemma run_waiting_account (cs : list call) :
  forall (s : policy) (p : Pid),
    In p (readyQueue s) \/ In (NewProcess p) cs ->
    In p (readyQueue (final cs s)) \/
    In p (dispatched (fst (run cs s))) \/
    In p (discarded cs s).
Proof.
  induction cs as [| c cs IH]; intros s p Hin.
  - destruct Hin as [Hin | []]. now left.
  - rewrite final_cons, run_cons. cbn [fst discarded].
    rewrite dispatched_cons.
    assert (Hnext :
              In p (readyQueue (snd (step c s))) \/ In (NewProcess p) cs \/
              In p (dispatched [fst (step c s)]) \/ In p (discarded [c] s)).
    { destruct Hin as [Hin | [Heq | Hin]].
      - destruct (step_waiting_account c s p Hin) as [H | [H | H]]; tauto.
      - subst c. left. cbn. apply in_or_app. right. now left.
      - tauto. }
    cbn [discarded] in Hnext. rewrite app_nil_r in Hnext.
    destruct Hnext as [H | [H | [H | H]]].
    + destruct (IH (snd (step c s)) p (or_introl H)) as [H1 | [H1 | H1]].
      * now left.
      * right. left. apply in_or_app. now right.
      * right. right. apply in_or_app. now right.
    + destruct (IH (snd (step c s)) p (or_intror H)) as [H1 | [H1 | H1]].
      * now left.
      * right. left. apply in_or_app. now right.
      * right. right. apply in_or_app. now right.
    + right. left. apply in_or_app. now left.
    + right. right. apply in_or_app. now left.
Qed.

Lemma step_tracked_account (c : call) (s : policy) (p : Pid) :
  p <> IDLE ->
  In p (tracked s) ->
  In p (tracked (snd (step c s))) \/
  In p (overwritten [c] s) \/
  In p (discarded [c] s).
Proof.
  intros Hp Hin. cbn [overwritten discarded]. rewrite !app_nil_r.
  destruct c as [pid | | |].
  - left. cbn [step snd]. rewrite tracked_newProcess.
    apply in_or_app. now left.
  - rewrite step_dispatch. cbn [snd]. unfold dispatch.
    unfold tracked in Hin.
    destruct (readyQueue s) as [| front rest] eqn:Hq; cbn [snd].
    + left. unfold tracked. now rewrite Hq.
    + apply in_app_or in Hin as [Hin | [Heq | Hin]].
      * right. now left.
      * left. subst front. unfold tracked, running. cbn.
        destruct (Z.eqb_spec p IDLE); [contradiction | now left].
      * left. unfold tracked. cbn [readyQueue]. apply in_or_app. now right.
  - left. rewrite step_preempt. cbn [snd]. unfold preempt.
    destruct (quantumClock s =? 0); cbn [snd]; [| exact Hin].
    unfold tracked in *. rewrite running_idle by reflexivity.
    cbn [app readyQueue]. apply in_or_app.
    apply in_app_or in Hin as [Hin | Hin]; [right | now left].
    unfold running in Hin.
    destruct (runningPid s =? IDLE); [destruct Hin | exact Hin].
  - cbn [step snd]. unfold tracked in *. cbn [readyQueue resetPolicy].
    rewrite app_nil_r.
    apply in_app_or in Hin as [Hin | Hin]; [now left | now right; right].
Qed.

Lemma run_tracked_account (cs : list call) :
  forall (s : policy) (p : Pid),
    p <> IDLE ->
    In p (tracked s) \/ In (NewProcess p) cs ->
    In p (tracked (final cs s)) \/
    In p (overwritten cs s) \/
    In p (discarded cs s).
Proof.
  induction cs as [| c cs IH]; intros s p Hp Hin.
  - destruct Hin as [Hin | []]. now left.
  - rewrite final_cons.
    assert (Hsplit :
              forall l1 l2 : list Pid,
                (match c with
                 | Dispatch =>
                     match readyQueue s with [] => [] | _ :: _ => running s end
                 | _ => []
                 end = l1) ->
                (match c with ResetPolicy => readyQueue s | _ => [] end = l2) ->
                In p (tracked (final cs (snd (step c s)))) \/
                In p (l1 ++ overwritten cs (snd (step c s))) \/
                In p (l2 ++ discarded cs (snd (step c s)))).
    { intros l1 l2 Hl1 Hl2.
      assert (Hnext :
                In p (tracked (snd (step c s))) \/ In (NewProcess p) cs \/
                In p l1 \/ In p l2).
      { destruct Hin as [Hin | [Heq | Hin]].
        - destruct (step_tracked_account c s p Hp Hin) as [H | [H | H]].
          + tauto.
          + cbn [overwritten] in H. rewrite app_nil_r in H.
            right. right. left. rewrite <- Hl1.
            destruct c; exact H.
          + cbn [discarded] in H. rewrite app_nil_r in H.
            right. right. right. rewrite <- Hl2.
            destruct c; exact H.
        - subst c. left. cbn [step snd]. rewrite tracked_newProcess.
          apply in_or_app. right. now left.
        - tauto. }
      destruct Hnext as [H | [H | [H | H]]].
      - destruct (IH (snd (step c s)) p Hp (or_introl H)) as [H1 | [H1 | H1]].
        + now left.
        + right. left. apply in_or_app. now right.
        + right. right. apply in_or_app. now right.
      - destruct (IH (snd (step c s)) p Hp (or_intror H)) as [H1 | [H1 | H1]].
        + now left.
        + right. left. apply in_or_app. now right.
        + right. right. apply in_or_app. now right.
      - right. left. apply in_or_app. now left.
      - right. right. apply in_or_app. now left. }
    cbn [overwritten discarded].
    destruct c; apply Hsplit; reflexivity.
Qed.

Lemma no_reset_discards_nothing (cs : list call) :
  forall s : policy, no_reset cs = true -> discarded cs s = [].
Proof.
  induction cs as [| c cs IH]; intros s Hnr.
  - reflexivity.
  - cbn [no_reset forallb] in Hnr. apply andb_true_iff in Hnr as [Hc Hnr].
    cbn [discarded]. rewrite (IH _ Hnr).
    destruct c; try reflexivity. discriminate.
Qed.

Lemma idle_dispatch_overwrites_nothing (cs : list call) :
  forall s : policy, idle_dispatch cs s = true -> overwritten cs s = [].
Proof.
  induction cs as [| c cs IH]; intros s Hid.
  - reflexivity.
  - cbn [idle_dispatch] in Hid. apply andb_true_iff in Hid as [Hc Hid].
    cbn [overwritten]. rewrite (IH _ Hid).
    destruct c; try reflexivity.
    apply Z.eqb_eq in Hc. rewrite (running_idle s Hc).
    now destruct (readyQueue s).
Qed.

(** C6: along every sequence of calls in which each [newProcess] brings
    a pid that is not tracked and [preempt] is only called while a
    process is running, no pid is ever tracked twice (ready queue and
    running process together).  No pid is lost either, but for the two
    ways the code drops one: a pid that was waiting or was given by
    [newProcess] is still waiting at the end, or was returned by a
    [dispatch()], or was in the queue that a [resetPolicy()] discarded;
    and a real process that was tracked or given is still tracked at the
    end, or was the runner that a [dispatch()] overwrote, or was
    discarded by a [resetPolicy()].  A sequence without [resetPolicy]
    discards nothing, and one whose [dispatch()] calls all find the CPU
    idle overwrites nothing. *)
Theorem tracked_once_and_kept (s : policy) (cs : list call) :
  NoDup (tracked s) ->
  wf_calls cs s = true ->
  NoDup (tracked (final cs s)) /\
  (forall p : Pid,
     In p (readyQueue s) \/ In (NewProcess p) cs ->
     In p (readyQueue (final cs s)) \/
     In p (dispatched (fst (run cs s))) \/
     In p (discarded cs s)) /\
  (forall p : Pid, p <> IDLE ->
     In p (tracked s) \/ In (NewProcess p) cs ->
     In p (tracked (final cs s)) \/
     In p (overwritten cs s) \/
     In p (discarded cs s)) /\
  (no_reset cs = true -> discarded cs s = []) /\
  (idle_dispatch cs s = true -> overwritten cs s = []).
Proof.
  intros Hnd Hwf. split; [now apply run_nodup |].
  split; [intros p; apply run_waiting_account |].
  split; [intros p; apply run_tracked_account |].
  split.
  - apply no_reset_discards_nothing.
  - apply idle_dispatch_overwrites_nothing.
Qed.

Lemma resetPolicy_drops_queue (s : policy) :
  tracked (resetPolicy s) = running s.
Proof.
  unfold tracked. cbn [readyQueue resetPolicy]. apply app_nil_r.
Qed.

(** X10: [dispatch()] on a non-empty queue overwrites [runningPid]
    without re-queuing it: a runner that is not itself waiting is neither
    running nor waiting after the call. *)
Lemma dispatch_drops_runner (s : policy) (front : Pid) (rest : list Pid) :
  readyQueue s = front :: rest ->
  ~ In (runningPid s) (front :: rest) ->
  ~ In (runningPid s) (tracked (snd (dispatch s))).
Proof.
  intros Hq Hfresh. unfold dispatch. rewrite Hq. cbn [snd].
  unfold tracked, running. cbn [runningPid readyQueue].
  destruct (front =? IDLE); cbn [app]; intros Hin; apply Hfresh.
  - now right.
  - exact Hin.
Qed.

Lemma reset_loses_queue : ~ never_duplicates_nor_loses.
Proof.
  intros H.
  destruct (H (mkPolicy [] IDLE 3 3) [NewProcess (IDLE + 1); ResetPolicy])
    as [_ Hkept].
  - unfold tracked. rewrite running_idle by reflexivity. constructor.
  - cbn. unfold is_tracked, tracked.
    rewrite running_idle by reflexivity. reflexivity.
  - specialize (Hkept (IDLE + 1)).
    unfold final in Hkept. cbn [run step snd] in Hkept.
    rewrite resetPolicy_drops_queue, running_idle in Hkept by reflexivity.
    apply Hkept; [lia | right; now left].
Qed.

(** Without [resetPolicy] a pid still disappears when [dispatch()] is
    called while a process is running: the runner is overwritten. *)
Lemma busy_dispatch_loses_runner :
  ~ (forall (s : policy) (cs : list call),
       NoDup (tracked s) -> wf_calls cs s = true -> no_reset cs = true ->
       forall p : Pid, p <> IDLE ->
         In p (tracked s) \/ In (NewProcess p) cs ->
         In p (tracked (final cs s))).
Proof.
  intros H.
  set (s0 := mkPolicy [] IDLE 3 3).
  set (cs := [NewProcess (IDLE + 1); NewProcess (IDLE + 2);
              Dispatch; Dispatch]).
  assert (Hfinal : final cs s0 = mkPolicy [] (IDLE + 2) 3 2) by reflexivity.
  assert (Hwf : wf_calls cs s0 = true).
  { unfold cs, s0, wf_calls, wf_call, is_tracked, tracked, running,
      step, newProcess, snd.
    cbn [runningPid readyQueue app]. rewrite Z.eqb_refl.
    cbn [app existsb].
    replace (IDLE + 2 =? IDLE + 1) with false
      by (symmetry; apply Z.eqb_neq; lia).
    reflexivity. }
  assert (Hnd : NoDup (tracked s0)).
  { unfold tracked. rewrite running_idle by reflexivity. constructor. }
  specialize (H s0 cs Hnd Hwf eq_refl (IDLE + 1) ltac:(lia)).
  rewrite Hfinal in H. unfold tracked, running in H.
  cbn [runningPid readyQueue] in H.
  assert (Hgiven : In (NewProcess (IDLE + 1)) cs) by now left.
  specialize (H (or_intror Hgiven)). rewrite app_nil_r in H.
  destruct (IDLE + 2 =? IDLE); [destruct H |].
  destruct H as [Heq | []]. lia.
Qed.

(** ** First in, first out *)

Lemma first_of_two (a b : Pid) (l1 : list Pid) :
  forall p1 pre p2 : list Pid,
    l1 ++ a :: p1 = pre ++ b :: p2 ->
    ~ In b l1 -> a <> b -> In a pre.
Proof.
  induction l1 as [| x l1 IH]; intros p1 pre p2 Heq Hb Hab.
  - destruct pre as [| y pre]; cbn in Heq.
    + congruence.
    + left. congruence.
  - destruct pre as [| y pre]; cbn in Heq.
    + exfalso. apply Hb. left. congruence.
    + right. injection Heq as _ Heq.
      apply (IH p1 pre p2 Heq); [| assumption].
      intros Hin. apply Hb. now right.
Qed.

(** A process waiting behind [l1] either is still waiting, the
    dispatches so far having returned the first pids of [l1], or has been
    dispatched right after all of [l1]. *)
Lemma fifo_run (A : Pid) (t : list call) :
  forall (s : policy) (l1 l2 : list Pid),
    no_reset t = true ->
    readyQueue s = l1 ++ A :: l2 ->
    (exists l1' l2' : list Pid,
       l1 = dispatched (fst (run t s)) ++ l1' /\
       readyQueue (final t s) = l1' ++ A :: l2') \/
    (exists post : list Pid,
       dispatched (fst (run t s)) = l1 ++ A :: post).
Proof.
  induction t as [| c t IH]; intros s l1 l2 Hnr Hq.
  - left. exists l1, l2. now split.
  - cbn [no_reset forallb] in Hnr. apply andb_true_iff in Hnr as [Hc Hnr].
    rewrite run_cons, final_cons. cbn [fst].
    destruct c as [pid | | |].
    + cbn [step fst snd dispatched].
      apply (IH _ l1 (l2 ++ [pid]) Hnr).
      cbn. rewrite Hq, <- app_assoc. reflexivity.
    + rewrite step_dispatch. cbn [fst snd dispatched]. unfold dispatch.
      rewrite Hq. destruct l1 as [| x l1]; cbn [app fst snd].
      * right. now eexists.
      * match goal with
        | |- context [run t ?s1] =>
            destruct (IH s1 l1 l2 Hnr eq_refl)
              as [(l1' & l2' & Hl & Hfin) | (post & Hd)]
        end.
        -- left. exists l1', l2'. split; [now rewrite Hl at 1 | exact Hfin].
        -- right. exists post. now rewrite Hd.
    + rewrite step_preempt. cbn [fst snd dispatched]. unfold preempt.
      destruct (quantumClock s =? 0); cbn [snd].
      * apply (IH _ l1 (l2 ++ [runningPid s]) Hnr).
        cbn. rewrite Hq, <- app_assoc. reflexivity.
      * apply (IH _ l1 l2 Hnr). exact Hq.
    + discriminate.
Qed.

(** C7: in a sequence of calls without [resetPolicy], if [A] is given to
    the policy by [newProcess] and later [B], which is not waiting in
    the ready queue at that time, then every [dispatch()] that returns
    [B] afterwards comes after a [dispatch()] that returned [A]. *)
Theorem fifo_dispatch_order
  (s : policy) (A B : Pid) (t2 t3 : list call) (pre post : list Pid) :
  no_reset t2 = true ->
  no_reset t3 = true ->
  ~ In B (readyQueue (final t2 (newProcess A s))) ->
  dispatched (fst (run t3 (newProcess B (final t2 (newProcess A s))))) =
    pre ++ B :: post ->
  In A (dispatched (fst (run t2 (newProcess A s))) ++ pre).
Proof.
  intros Hn2 Hn3 Hfresh Hout. apply in_or_app.
  destruct (fifo_run A t2 (newProcess A s) (readyQueue s) [] Hn2 eq_refl)
    as [(l1 & l2 & _ & Hfin) | (out2 & Hd)].
  - right.
    assert (HAB : A <> B).
    { intros ->. apply Hfresh. rewrite Hfin. apply in_or_app.
      right. now left. }
    assert (HB : ~ In B l1).
    { intros Hin. apply Hfresh. rewrite Hfin. apply in_or_app. now left. }
    destruct (fifo_run A t3 (newProcess B (final t2 (newProcess A s)))
                l1 (l2 ++ [B]) Hn3)
      as [(l1' & l2' & Hl & _) | (out3 & Hd)].
    + cbn. rewrite Hfin, <- app_assoc. reflexivity.
    + exfalso. apply HB. rewrite Hl, Hout.
      apply in_or_app. left. apply in_or_app. right. now left.
    + rewrite Hd in Hout. now apply (first_of_two A B l1 out3 pre post).
  - left. rewrite Hd. apply in_or_app. right. now left.
Qed.

Lemma reset_breaks_fifo : ~ fifo_in_every_sequence.
Proof.
  intros H.
  apply (H (mkPolicy [] IDLE 3 3) (IDLE + 1) (IDLE + 2)
           [ResetPolicy] [Dispatch] (fun Hin => Hin) [] []).
  reflexivity.
Qed.

(** Without [resetPolicy] the order can still be broken when [B] is
    already waiting at the time it is given to the policy again. *)
Lemma duplicate_breaks_fifo :
  ~ (forall (s : policy) (A B : Pid) (t2 t3 : list call)
            (pre post : list Pid),
       no_reset t2 = true -> no_reset t3 = true ->
       dispatched
         (fst (run t3 (newProcess B (final t2 (newProcess A s))))) =
         pre ++ B :: post ->
       In A (dispatched (fst (run t2 (newProcess A s))) ++ pre)).
Proof.
  intros H.
  apply (H (mkPolicy [IDLE + 2] IDLE 3 3) (IDLE + 1) (IDLE + 2)
           [] [Dispatch] [] [] eq_refl eq_refl).
  reflexivity.
Qed.

(** ** Misuse *)

Lemma sub_1_neq (z : Z) : Int.sub z 1 <> z.
Proof.
  unfold Int.sub, Int.wrap, Int.min_int. intros H.
  assert (Hm := Z.mod_pos_bound (z - 1 - - 2 ^ 31) (2 ^ 32) ltac:(lia)).
  destruct (Z.eq_dec z (- 2 ^ 31)) as [-> | Hne].
  - vm_compute in H. discriminate.
  - rewrite Z.mod_small in H; lia.
Qed.

(** C9: neither answer to misuse is in the code.  The constructor builds
    a policy for every quantum, positive or not.  [preempt()] does not
    look at [runningPid]: called with no running process it behaves as
    with one, appending [IDLE] to the ready queue and returning true
    when the clock is 0, and otherwise returning false after it has
    decremented the clock, which is never a no-op. *)
Theorem misuse_is_unchecked (base s : policy) (q : Z) :
  runningPid s = IDLE ->
  construct base q = Constructed (mkPolicy [] (runningPid base) q q) /\
  (quantumClock s = 0 ->
   preempt s =
     (true, mkPolicy (readyQueue s ++ [IDLE]) IDLE (quantum s) 0)) /\
  (quantumClock s <> 0 ->
   preempt s =
     (false, mkPolicy (readyQueue s) IDLE (quantum s)
                      (Int.sub (quantumClock s) 1)) /\
   snd (preempt s) <> s).
Proof.
  intros Hidle. split; [reflexivity | split].
  - intros H0. now rewrite (preempt_expired s H0), Hidle.
  - intros Hne. rewrite (preempt_ticking s Hne), Hidle.
    split; [reflexivity |]. cbn [snd]. intros Heq.
    apply (sub_1_neq (quantumClock s)).
    now rewrite <- Heq at 2.
Qed.

Lemma misuse_goes_through : ~ misuse_is_resolved.
Proof.
  intros [Hreject | Hnoop].
  - specialize (Hreject (mkPolicy [] IDLE 0 0) 0 ltac:(lia)). discriminate.
  - specialize (Hnoop (mkPolicy [] IDLE 0 0) eq_refl). discriminate.
Qed.

(** ** Time slices *)

Lemma time_slice_rotates (s : policy) (front : Pid) (rest : list Pid) :
  readyQueue s = front :: rest ->
  0 < quantum s <= Int.max_int ->
  time_slice s = (front, mkPolicy (rest ++ [front]) IDLE (quantum s) 0).
Proof.
  intros Hq Hpos. unfold time_slice, dispatch. rewrite Hq.
  remember (Z.to_nat (quantum s) - 1)%nat as n eqn:Hn.
  replace (Z.to_nat (quantum s)) with (S n) by lia.
  rewrite preempt_n_countdown.
  - reflexivity.
  - cbn. rewrite sub_1_exact; unfold Int.min_int; lia.
  - lia.
Qed.

(** X1: with a positive quantum, as many time slices as there are pids in a
    front part [l1] of the ready queue dispatch exactly the pids of [l1]
    in queue order and leave [l1] behind the rest of the queue, in the
    same order: the queue is rotated, never reordered.  After a slice
    the CPU is idle and the clock is 0. *)
Theorem time_slices_rotate (l1 : list Pid) :
  forall (s : policy) (l2 : list Pid),
    readyQueue s = l1 ++ l2 ->
    0 < quantum s <= Int.max_int ->
    fst (time_slices (length l1) s) = l1 /\
    readyQueue (snd (time_slices (length l1) s)) = l2 ++ l1 /\
    quantum (snd (time_slices (length l1) s)) = quantum s /\
    (l1 <> [] ->
     runningPid (snd (time_slices (length l1) s)) = IDLE /\
     quantumClock (snd (time_slices (length l1) s)) = 0).
Proof.
  induction l1 as [| x l1 IH]; intros s l2 Hq Hpos.
  - cbn. rewrite app_nil_r.
    split; [reflexivity | split; [assumption | split; [reflexivity |]]].
    intros Hne. now contradiction Hne.
  - cbn [length time_slices].
    rewrite (time_slice_rotates s x (l1 ++ l2) Hq Hpos).
    set (s1 := mkPolicy ((l1 ++ l2) ++ [x]) IDLE (quantum s) 0).
    destruct (IH s1 (l2 ++ [x])) as (Hout & Hqueue & Hquant & Hidle).
    + cbn. now rewrite app_assoc.
    + exact Hpos.
    + destruct (time_slices (length l1) s1) as [ps s2] eqn:Hts.
      cbn [fst snd] in *. subst ps.
      split; [reflexivity |]. split.
      * rewrite Hqueue, <- app_assoc. reflexivity.
      * split; [exact Hquant |]. intros _.
        destruct l1 as [| y l1].
        -- cbn in Hts. injection Hts as <-. now split.
        -- apply Hidle. discriminate.
Qed.

(** ** Enqueue, then drain *)

Lemma newProcesses_spec (l : list Pid) :
  forall s : policy,
    newProcesses l s =
      mkPolicy (readyQueue s ++ l) (runningPid s) (quantum s)
               (quantumClock s).
Proof.
  unfold newProcesses.
  induction l as [| x l IH]; intros s; cbn [fold_left].
  - rewrite app_nil_r. now destruct s.
  - rewrite IH. unfold newProcess. cbn. now rewrite <- app_assoc.
Qed.

(** X2: the pids handed to the policy by [newProcess] come back from
    [dispatch()] in the order they were handed in, after those already
    waiting; the dispatch after the last of them finds the queue empty
    and returns [IDLE] without touching the object. *)
Theorem newProcesses_then_dispatch (l : list Pid) (s : policy) :
  let served :=
    dispatch_n (length (readyQueue s ++ l)) (newProcesses l s) in
  fst served = readyQueue s ++ l /\
  readyQueue (snd served) = [] /\
  dispatch (snd served) = (IDLE, snd served).
Proof.
  cbv zeta.
  destruct (dispatch_n_drain (readyQueue s ++ l) (newProcesses l s) [])
    as (Hout & Hrest & _).
  - rewrite newProcesses_spec. cbn. now rewrite app_nil_r.
  - repeat split; try assumption.
    unfold dispatch. now rewrite Hrest.
Qed.

(** ** What no call changes *)

(** X3: no member function writes [quantum] after the constructor: it is
    the same after any sequence of calls. *)
Theorem quantum_unchanged (cs : list call) :
  forall s : policy, quantum (final cs s) = quantum s.
Proof.
  induction cs as [| c cs IH]; intros s.
  - reflexivity.
  - rewrite final_cons, IH. destruct c as [pid | | |].
    + reflexivity.
    + rewrite step_dispatch. cbn [snd]. unfold dispatch.
      now destruct (readyQueue s).
    + rewrite step_preempt. cbn [snd]. unfold preempt.
      now destruct (quantumClock s =? 0).
    + reflexivity.
Qed.

(** ** The clock *)


Lemma preempt_n_negative (n : nat) :
  forall s : policy,
    Int.min_int + Z.of_nat n <= quantumClock s < 0 ->
    preempt_n n s =
      (repeat false n,
       mkPolicy (readyQueue s) (runningPid s) (quantum s)
                (quantumClock s - Z.of_nat n)).
Proof.
  induction n as [| n IH]; intros s Hc.
  - cbn. rewrite Z.sub_0_r. now destruct s.
  - cbn [preempt_n]. rewrite preempt_ticking by lia.
    rewrite IH.
    + cbn [readyQueue runningPid quantum quantumClock repeat].
      rewrite sub_1_exact by (unfold Int.max_int; lia).
      replace (quantumClock s - 1 - Z.of_nat n)
        with (quantumClock s - Z.of_nat (S n)) by lia.
      reflexivity.
    + cbn [quantumClock].
      rewrite sub_1_exact by (unfold Int.max_int; lia). lia.
Qed.

(** X5: with a quantum that is not positive the clock is negative right
    after [dispatch()], and [preempt()] keeps returning false: the
    process is not preempted for as long as the clock stays above the
    least [int], that is for at least [2^31 + quantum - 1] cycles. *)
Theorem nonpositive_quantum_never_preempts
  (s : policy) (front : Pid) (rest : list Pid) (n : nat) :
  readyQueue s = front :: rest ->
  Int.min_int < quantum s <= 0 ->
  Z.of_nat n <= quantum s - 1 - Int.min_int ->
  fst (preempt_n n (snd (dispatch s))) = repeat false n /\
  runningPid (snd (preempt_n n (snd (dispatch s)))) = front.
Proof.
  intros Hq Hquant Hn. unfold dispatch. rewrite Hq. cbn [snd].
  rewrite preempt_n_negative.
  - now split.
  - cbn [quantumClock].
    rewrite sub_1_exact by (unfold Int.max_int; lia). lia.
Qed.

(** X6: once the clock is 0 it stays 0 until the next [dispatch()]: every
    further [preempt()] returns true again and pushes one more pid,
    which after the first call is the sentinel [IDLE]. *)
Theorem preempt_at_zero_repeats (n : nat) :
  forall s : policy,
    quantumClock s = 0 ->
    preempt_n (S n) s =
      (repeat true (S n),
       mkPolicy (readyQueue s ++ runningPid s :: repeat IDLE n) IDLE
                (quantum s) 0).
Proof.
  induction n as [| n IH]; intros s H0.
  - cbn [preempt_n]. now rewrite (preempt_expired s H0).
  - change (preempt_n (S (S n)) s)
      with (let (b, s1) := preempt s in
            let (bs, s2) := preempt_n (S n) s1 in (b :: bs, s2)).
    rewrite (preempt_expired s H0), IH by reflexivity.
    cbn [readyQueue runningPid quantum repeat].
    now rewrite <- app_assoc.
Qed.

(** ** Where dispatched pids come from *)

Lemma dispatch_source (s : policy) :
  fst (dispatch s) = IDLE \/ In (fst (dispatch s)) (readyQueue s).
Proof.
  unfold dispatch. destruct (readyQueue s) as [| front rest]; cbn.
  - now left.
  - right. now left.
Qed.

Lemma step_source (c : call) (s : policy) (p : Pid) :
  In p (readyQueue (snd (step c s))) \/ p = runningPid (snd (step c s)) ->
  p = IDLE \/ In p (readyQueue s) \/ p = runningPid s \/ c = NewProcess p.
Proof.
  destruct c as [pid | | |].
  - cbn. intros [Hin | Heq]; [| tauto].
    apply in_app_or in Hin as [Hin | [Heq | []]]; [tauto |].
    subst pid. tauto.
  - rewrite step_dispatch. cbn [snd]. unfold dispatch.
    destruct (readyQueue s) as [| front rest] eqn:Hq; cbn.
    + rewrite Hq. tauto.
    + intros [Hin | Heq]; right; left; [now right | now left].
  - rewrite step_preempt. cbn [snd]. unfold preempt.
    destruct (quantumClock s =? 0); cbn; [| tauto].
    intros [Hin | Heq]; [| tauto].
    apply in_app_or in Hin as [Hin | [Heq | []]]; [tauto |].
    subst p. tauto.
  - cbn. tauto.
Qed.

Lemma run_source (cs : list call) :
  forall (s : policy) (p : Pid),
    In p (dispatched (fst (run cs s))) \/
    In p (readyQueue (final cs s)) \/ p = runningPid (final cs s) ->
    p = IDLE \/ In p (readyQueue s) \/ p = runningPid s \/
    In (NewProcess p) cs.
Proof.
  induction cs as [| c cs IH]; intros s p.
  - cbn. tauto.
  - rewrite run_cons, final_cons. cbn [fst]. intros H.
    assert (Hlater :
              In p (dispatched (fst (run cs (snd (step c s))))) \/
              In p (readyQueue (final cs (snd (step c s)))) \/
              p = runningPid (final cs (snd (step c s))) ->
              p = IDLE \/ In p (readyQueue s) \/ p = runningPid s \/
              In (NewProcess p) (c :: cs)).
    { intros H1. apply IH in H1 as [H1 | [H1 | [H1 | H1]]].
      - tauto.
      - destruct (step_source c s p (or_introl H1)) as [H2 | [H2 | [H2 | H2]]];
          try tauto.
        right. right. right. left. exact H2.
      - destruct (step_source c s p (or_intror H1)) as [H2 | [H2 | [H2 | H2]]];
          try tauto.
        right. right. right. left. exact H2.
      - right. right. right. right. exact H1. }
    destruct c as [pid | | |].
    + apply Hlater. exact H.
    + rewrite step_dispatch in H. cbn [fst snd dispatched] in H.
      destruct H as [[Heq | Hin] | H].
      * subst p. destruct (dispatch_source s); tauto.
      * apply Hlater. left. rewrite step_dispatch. exact Hin.
      * apply Hlater. right. rewrite step_dispatch. exact H.
    + rewrite step_preempt in H. cbn [fst snd dispatched] in H.
      apply Hlater. rewrite step_preempt. exact H.
    + apply Hlater. exact H.
Qed.

(** X7: [dispatch()] never invents a pid: whatever the calls, every pid it
    returns is the sentinel, or was waiting or running at the start, or
    was handed in by a [newProcess] of the sequence. *)
Theorem dispatched_pids_have_a_source
  (cs : list call) (s : policy) (p : Pid) :
  In p (dispatched (fst (run cs s))) ->
  p = IDLE \/ In p (readyQueue s) \/ p = runningPid s \/
  In (NewProcess p) cs.
Proof.
  intros H. apply (run_source cs s p). now left.
Qed.

(** ** The queue discipline *)

Lemma step_queue (c : call) (s : policy) :
  is_reset c = false ->
  readyQueue s ++ pushed [c] s = popped [c] s ++ readyQueue (snd (step c s)).
Proof.
  intros Hc. cbn [pushed popped]. rewrite !app_nil_r.
  destruct c as [pid | | |].
  - reflexivity.
  - rewrite step_dispatch. cbn [snd]. unfold dispatch.
    destruct (readyQueue s) as [| front rest] eqn:Hq; cbn.
    + now rewrite Hq.
    + now rewrite app_nil_r.
  - rewrite step_preempt. cbn [snd]. unfold preempt.
    destruct (quantumClock s =? 0); cbn.
    + reflexivity.
    + now rewrite app_nil_r.
  - discriminate.
Qed.

(** X8: between two resets the ready queue is a first-in first-out buffer:
    what was waiting at the start followed by everything pushed since
    ([newProcess], quantum expiry) is, in this very order, everything
    popped by [dispatch()] followed by what is waiting now. *)
Theorem queue_is_fifo (cs : list call) :
  forall s : policy,
    no_reset cs = true ->
    readyQueue s ++ pushed cs s = popped cs s ++ readyQueue (final cs s).
Proof.
  induction cs as [| c cs IH]; intros s Hnr.
  - cbn. now rewrite app_nil_r.
  - cbn [no_reset forallb] in Hnr. apply andb_true_iff in Hnr as [Hc Hnr].
    apply negb_true_iff in Hc.
    assert (Hstep := step_queue c s Hc).
    cbn [pushed popped] in Hstep. rewrite !app_nil_r in Hstep.
    rewrite final_cons. cbn [pushed popped].
    rewrite app_assoc, Hstep, <- !app_assoc. f_equal.
    now apply IH.
Qed.

(** ** The sentinel in the queue *)

Lemma step_no_IDLE (c : call) (s : policy) :
  proper_call c s = true ->
  ~ In IDLE (readyQueue s) ->
  ~ In IDLE (readyQueue (snd (step c s))).
Proof.
  intros Hc Hq. destruct c as [pid | | |].
  - cbn in *. apply negb_true_iff, Z.eqb_neq in Hc.
    intros Hin. apply in_app_or in Hin as [Hin | [Heq | []]]; auto.
  - rewrite step_dispatch. cbn [snd]. unfold dispatch.
    destruct (readyQueue s) as [| front rest] eqn:Hr; cbn.
    + rewrite Hr. intros [].
    + intros Hin. apply Hq. now right.
  - cbn in Hc. apply negb_true_iff, Z.eqb_neq in Hc.
    rewrite step_preempt. cbn [snd]. unfold preempt.
    destruct (quantumClock s =? 0); cbn.
    + intros Hin. apply in_app_or in Hin as [Hin | [Heq | []]]; auto.
    + exact Hq.
  - cbn. intros [].
Qed.

(** X9: when no [newProcess] brings the sentinel and [preempt()] is only
    called while a process is running, the sentinel never enters the
    ready queue, and [dispatch()] returns [IDLE] exactly when the queue
    is empty. *)
Theorem IDLE_means_empty (cs : list call) :
  forall s : policy,
    ~ In IDLE (readyQueue s) ->
    proper_calls cs s = true ->
    ~ In IDLE (readyQueue (final cs s)) /\
    (fst (dispatch (final cs s)) = IDLE <-> readyQueue (final cs s) = []).
Proof.
  induction cs as [| c cs IH]; intros s Hq Hp.
  - split; [exact Hq |]. unfold final. cbn [run snd]. unfold dispatch.
    destruct (readyQueue s) as [| front rest]; cbn.
    + tauto.
    + split; [| discriminate].
      intros Heq. exfalso. apply Hq. now left.
  - cbn [proper_calls] in Hp. apply andb_true_iff in Hp as [Hc Hcs].
    rewrite final_cons. apply IH; [| exact Hcs].
    now apply step_no_IDLE.
Qed.

(** ** What survives a reset *)

(** X11: after [resetPolicy()] nothing that was waiting comes back: every pid
    dispatched afterwards is the sentinel, or the [runningPid] the reset
    left in place, or was handed in by a [newProcess] after the reset. *)
Theorem reset_forgets_queue (cs : list call) (s : policy) (p : Pid) :
  In p (dispatched (fst (run cs (resetPolicy s)))) ->
  p = IDLE \/ p = runningPid s \/ In (NewProcess p) cs.
Proof.
  intros H.
  destruct (run_source cs (resetPolicy s) p (or_introl H))
    as [H1 | [[] | [H1 | H1]]]; tauto.
Qed.

End Policy.

(** ** The statements that fail, for every value of the sentinel *)

(** C6, as stated, fails whatever [IDLE] is: from the idle policy with
    an empty queue, [newProcess(IDLE + 1)] followed by [resetPolicy()]
    is a well-formed sequence after which the process [IDLE + 1] is
    neither waiting nor running. *)
Lemma never_duplicates_nor_loses_fails :
  ~ exists IDLE : Pid, never_duplicates_nor_loses IDLE.
Proof.
  intros [IDLE H]. exact (reset_loses_queue IDLE H).
Qed.

(** C7, as stated, fails whatever [IDLE] is: [newProcess(IDLE + 1)],
    [resetPolicy()], [newProcess(IDLE + 2)], [dispatch()] returns
    [IDLE + 2] although [IDLE + 1], given to the policy first, was never
    dispatched. *)
Lemma fifo_in_every_sequence_fails :
  ~ exists IDLE : Pid, fifo_in_every_sequence IDLE.
Proof.
  intros [IDLE H]. exact (reset_breaks_fifo IDLE H).
Qed.

(** C9, as stated, fails whatever [IDLE] is: a policy is constructed
    with quantum 0, and on that policy, with no process running and the
    clock at 0, [preempt()] returns true and enqueues [IDLE]. *)
Lemma misuse_is_resolved_fails :
  ~ exists IDLE : Pid, misuse_is_resolved IDLE.
Proof.
  intros [IDLE H]. exact (misuse_goes_through IDLE H).
Qed.

(** ** Instances

    The theorems above at concrete policies, with [-1] for the sentinel
    and the scenario of a quantum of 3 and the processes 1 and 2. *)

Lemma dispatch_nonempty_witness :
  readyQueue (mkPolicy [1; 2] (-1) 3 3) = 1 :: [2] /\
  dispatch (-1) (mkPolicy [1; 2] (-1) 3 3) = (1, mkPolicy [2] 1 3 2) /\
  quantumClock (snd (dispatch (-1) (mkPolicy [1; 2] (-1) 3 3))) = 3 - 1.
Proof.
  destruct (dispatch_nonempty (-1) (mkPolicy [1; 2] (-1) 3 3) 1 [2] eq_refl)
    as [Hret Hclock].
  split; [reflexivity | split].
  - exact Hret.
  - apply Hclock. vm_compute. split; [reflexivity | discriminate].
Defined.

Lemma preempt_after_quantum_witness :
  readyQueue (mkPolicy [1; 2] (-1) 3 3) = 1 :: [2] /\
  0 < 3 <= Int.max_int /\
  fst (preempt_n (-1) 3 (snd (dispatch (-1) (mkPolicy [1; 2] (-1) 3 3)))) =
    [false; false; true].
Proof.
  split; [reflexivity | split].
  - vm_compute. split; [reflexivity | discriminate].
  - apply (preempt_after_quantum (-1) (mkPolicy [1; 2] (-1) 3 3) 1 [2]).
    + reflexivity.
    + vm_compute. split; [reflexivity | discriminate].
Defined.

Lemma preempt_spec_witness :
  (1 <> -1 /\ 0 = 0 /\
   preempt (-1) (mkPolicy [2] 1 3 0) = (true, mkPolicy [2; 1] (-1) 3 0)) /\
  (1 <> -1 /\ 2 <> 0 /\
   preempt (-1) (mkPolicy [2] 1 3 2) = (false, mkPolicy [2] 1 3 1) /\
   quantumClock (snd (preempt (-1) (mkPolicy [2] 1 3 2))) = 2 - 1).
Proof.
  split.
  - split; [discriminate | split; [reflexivity |]].
    apply (preempt_spec (-1) (mkPolicy [2] 1 3 0)).
    + discriminate.
    + reflexivity.
  - split; [discriminate | split; [discriminate |]].
    destruct (preempt_spec (-1) (mkPolicy [2] 1 3 2)) as [_ Htick].
    + discriminate.
    + destruct Htick as [Hret Hclock]; [discriminate |].
      split; [exact Hret |].
      apply Hclock. vm_compute. split; [reflexivity | discriminate].
Defined.

Lemma dispatch_empty_witness :
  readyQueue (mkPolicy [] (-1) 3 3) = [] /\
  dispatch (-1) (mkPolicy [] (-1) 3 3) = (-1, mkPolicy [] (-1) 3 3).
Proof.
  split; [reflexivity |].
  apply (dispatch_empty (-1) (mkPolicy [] (-1) 3 3)). reflexivity.
Defined.

Lemma tracked_once_and_kept_witness :
  let s := RRSchedulingPolicy (mkPolicy [] (-1) 0 0) 3 in
  let cs := [NewProcess 1; NewProcess 2; Dispatch;
             Preempt; Preempt; Preempt; Dispatch] in
  NoDup (tracked (-1) s) /\
  wf_calls (-1) cs s = true /\
  no_reset cs = true /\
  idle_dispatch (-1) cs s = true /\
  NoDup (tracked (-1) (final (-1) cs s)) /\
  (In 1 (readyQueue (final (-1) cs s)) \/
   In 1 (dispatched (fst (run (-1) cs s))) \/
   In 1 (discarded (-1) cs s)) /\
  (In 2 (tracked (-1) (final (-1) cs s)) \/
   In 2 (overwritten (-1) cs s) \/
   In 2 (discarded (-1) cs s)) /\
  discarded (-1) cs s = [] /\
  overwritten (-1) cs s = [].
Proof.
  cbv zeta.
  assert (Hnd : NoDup (tracked (-1)
                         (RRSchedulingPolicy (mkPolicy [] (-1) 0 0) 3)))
    by constructor.
  destruct (tracked_once_and_kept (-1)
              (RRSchedulingPolicy (mkPolicy [] (-1) 0 0) 3)
              [NewProcess 1; NewProcess 2; Dispatch;
               Preempt; Preempt; Preempt; Dispatch]
              Hnd eq_refl)
    as (Hnodup & Hwaiting & Htracked & Hdiscarded & Hoverwritten).
  repeat (split; [first [exact Hnd | reflexivity | exact Hnodup] |]).
  split; [| split; [| split]].
  - apply Hwaiting. right. left. reflexivity.
  - apply Htracked; [discriminate |]. right. right. left. reflexivity.
  - apply Hdiscarded. reflexivity.
  - apply Hoverwritten. reflexivity.
Defined.

Lemma fifo_dispatch_order_witness :
  let s := mkPolicy [] (-1) 3 3 in
  let t3 := [Dispatch; Preempt; Preempt; Preempt; Dispatch] in
  no_reset [] = true /\
  no_reset t3 = true /\
  ~ In 2 (readyQueue (final (-1) [] (newProcess 1 s))) /\
  dispatched
    (fst (run (-1) t3 (newProcess 2 (final (-1) [] (newProcess 1 s))))) =
    [1] ++ 2 :: [] /\
  In 1 (dispatched (fst (run (-1) [] (newProcess 1 s))) ++ [1]).
Proof.
  cbv zeta.
  assert (Hfresh : ~ In 2 (readyQueue
                             (final (-1) []
                                (newProcess 1 (mkPolicy [] (-1) 3 3))))).
  { intros [Heq | []]. discriminate. }
  repeat (split; [first [reflexivity | exact Hfresh] |]).
  apply (fifo_dispatch_order (-1) (mkPolicy [] (-1) 3 3) 1 2 []
           [Dispatch; Preempt; Preempt; Preempt; Dispatch] [1] []).
  - reflexivity.
  - reflexivity.
  - exact Hfresh.
  - reflexivity.
Defined.

Lemma quantumClock_in_range_witness :
  let s := final (-1) [NewProcess 1; Dispatch; Preempt; Preempt; Preempt]
             (RRSchedulingPolicy (mkPolicy [] (-1) 0 0) 3) in
  0 < 3 <= Int.max_int /\
  (0 <= quantumClock s <= quantum s /\ quantum s = 3).
Proof.
  cbv zeta.
  assert (Hq : 0 < 3 <= Int.max_int)
    by (vm_compute; split; [reflexivity | discriminate]).
  split; [exact Hq |].
  apply (quantumClock_in_range (-1) (mkPolicy [] (-1) 0 0) 3
           [NewProcess 1; Dispatch; Preempt; Preempt; Preempt] Hq).
Defined.

Lemma misuse_is_unchecked_witness :
  let s := RRSchedulingPolicy (mkPolicy [] (-1) 7 7) 0 in
  runningPid s = -1 /\
  quantumClock s = 0 /\
  construct (mkPolicy [] (-1) 7 7) 0 = Constructed (mkPolicy [] (-1) 0 0) /\
  preempt (-1) s = (true, mkPolicy [-1] (-1) 0 0).
Proof.
  cbv zeta.
  destruct (misuse_is_unchecked (-1) (mkPolicy [] (-1) 7 7)
              (RRSchedulingPolicy (mkPolicy [] (-1) 7 7) 0) 0 eq_refl)
    as (Hctor & Hzero & _).
  split; [reflexivity | split; [reflexivity | split]].
  - exact Hctor.
  - apply Hzero. reflexivity.
Defined.

Lemma preempt_idle_enqueues_IDLE_witness :
  let s := mkPolicy [5] (-1) 3 0 in
  runningPid s = -1 /\
  quantumClock s = 0 /\
  preempt (-1) s = (true, mkPolicy [5; -1] (-1) 3 0) /\
  fst (dispatch_n (-1) 1 (snd (preempt (-1) s))) = [5] /\
  readyQueue (snd (dispatch_n (-1) 1 (snd (preempt (-1) s)))) = [-1] /\
  dispatch (-1) (snd (dispatch_n (-1) 1 (snd (preempt (-1) s)))) =
    (-1, mkPolicy [] (-1) 3 2).
Proof.
  cbv zeta.
  split; [reflexivity | split; [reflexivity |]].
  apply (preempt_idle_enqueues_IDLE (-1) (mkPolicy [5] (-1) 3 0));
    reflexivity.
Defined.

(** ** Further instances *)

Lemma time_slices_rotate_witness :
  let s := mkPolicy [1; 2; 3] (-1) 2 2 in
  readyQueue s = [1; 2] ++ [3] /\
  0 < quantum s <= Int.max_int /\
  fst (time_slices (-1) 2 s) = [1; 2] /\
  readyQueue (snd (time_slices (-1) 2 s)) = [3; 1; 2] /\
  quantum (snd (time_slices (-1) 2 s)) = 2 /\
  runningPid (snd (time_slices (-1) 2 s)) = -1 /\
  quantumClock (snd (time_slices (-1) 2 s)) = 0.
Proof.
  cbv zeta.
  assert (Hq : 0 < 2 <= Int.max_int)
    by (vm_compute; split; [reflexivity | discriminate]).
  destruct (time_slices_rotate (-1) [1; 2] (mkPolicy [1; 2; 3] (-1) 2 2)
              [3] eq_refl Hq) as (Hout & Hqueue & Hquant & Hidle).
  split; [reflexivity | split; [exact Hq |]].
  split; [exact Hout | split; [exact Hqueue | split; [exact Hquant |]]].
  apply Hidle. discriminate.
Defined.


Lemma nonpositive_quantum_never_preempts_witness :
  let s := mkPolicy [1; 2] (-1) 0 0 in
  readyQueue s = 1 :: [2] /\
  Int.min_int < quantum s <= 0 /\
  Z.of_nat 5 <= quantum s - 1 - Int.min_int /\
  fst (preempt_n (-1) 5 (snd (dispatch (-1) s))) =
    [false; false; false; false; false] /\
  runningPid (snd (preempt_n (-1) 5 (snd (dispatch (-1) s)))) = 1.
Proof.
  cbv zeta.
  assert (Hq : Int.min_int < quantum (mkPolicy [1; 2] (-1) 0 0) <= 0)
    by (vm_compute; split; [reflexivity | discriminate]).
  assert (Hn : Z.of_nat 5 <=
               quantum (mkPolicy [1; 2] (-1) 0 0) - 1 - Int.min_int)
    by (vm_compute; discriminate).
  split; [reflexivity | split; [exact Hq | split; [exact Hn |]]].
  apply (nonpositive_quantum_never_preempts (-1)
           (mkPolicy [1; 2] (-1) 0 0) 1 [2] 5 eq_refl Hq Hn).
Defined.

Lemma preempt_at_zero_repeats_witness :
  quantumClock (mkPolicy [2] 1 3 0) = 0 /\
  preempt_n (-1) 3 (mkPolicy [2] 1 3 0) =
    ([true; true; true], mkPolicy [2; 1; -1; -1] (-1) 3 0).
Proof.
  split; [reflexivity |].
  apply (preempt_at_zero_repeats (-1) 2 (mkPolicy [2] 1 3 0)). reflexivity.
Defined.

Lemma dispatched_pids_have_a_source_witness :
  let s := mkPolicy [4] (-1) 3 3 in
  let cs := [NewProcess 5; Dispatch; Dispatch] in
  In 5 (dispatched (fst (run (-1) cs s))) /\
  (5 = -1 \/ In 5 (readyQueue s) \/ 5 = runningPid s \/
   In (NewProcess 5) cs).
Proof.
  cbv zeta.
  assert (H : In 5 (dispatched
                      (fst (run (-1) [NewProcess 5; Dispatch; Dispatch]
                              (mkPolicy [4] (-1) 3 3)))))
    by (right; left; reflexivity).
  split; [exact H |].
  apply (dispatched_pids_have_a_source (-1) _ _ 5 H).
Defined.

Lemma queue_is_fifo_witness :
  let s := mkPolicy [1] (-1) 1 1 in
  let cs := [NewProcess 2; Dispatch; Preempt; Dispatch; NewProcess 3] in
  no_reset cs = true /\
  pushed (-1) cs s = [2; 1; 3] /\
  popped (-1) cs s = [1; 2] /\
  readyQueue s ++ pushed (-1) cs s =
    popped (-1) cs s ++ readyQueue (final (-1) cs s).
Proof.
  cbv zeta.
  split; [reflexivity | split; [reflexivity | split; [reflexivity |]]].
  apply (queue_is_fifo (-1)
           [NewProcess 2; Dispatch; Preempt; Dispatch; NewProcess 3]
           (mkPolicy [1] (-1) 1 1)).
  reflexivity.
Defined.

Lemma IDLE_means_empty_witness :
  let s := mkPolicy [] (-1) 2 2 in
  let cs := [NewProcess 1; Dispatch; Preempt; Preempt; Dispatch] in
  ~ In (-1) (readyQueue s) /\
  proper_calls (-1) cs s = true /\
  ~ In (-1) (readyQueue (final (-1) cs s)) /\
  (fst (dispatch (-1) (final (-1) cs s)) = -1 <->
   readyQueue (final (-1) cs s) = []).
Proof.
  cbv zeta.
  assert (Hq : ~ In (-1) (readyQueue (mkPolicy [] (-1) 2 2)))
    by (intros []).
  split; [exact Hq | split; [reflexivity |]].
  apply (IDLE_means_empty (-1)
           [NewProcess 1; Dispatch; Preempt; Preempt; Dispatch]
           (mkPolicy [] (-1) 2 2) Hq).
  reflexivity.
Defined.

Lemma dispatch_drops_runner_witness :
  let s := mkPolicy [2; 3] 1 3 1 in
  readyQueue s = 2 :: [3] /\
  ~ In (runningPid s) (2 :: [3]) /\
  ~ In (runningPid s) (tracked (-1) (snd (dispatch (-1) s))).
Proof.
  cbv zeta.
  assert (Hfresh : ~ In (runningPid (mkPolicy [2; 3] 1 3 1)) (2 :: [3])).
  { intros [Heq | [Heq | []]]; discriminate. }
  split; [reflexivity | split; [exact Hfresh |]].
  apply (dispatch_drops_runner (-1) (mkPolicy [2; 3] 1 3 1) 2 [3]
           eq_refl Hfresh).
Defined.

Lemma reset_forgets_queue_witness :
  let s := mkPolicy [4; 5] 1 1 0 in
  let cs := [Preempt; Preempt; Dispatch] in
  In 1 (dispatched (fst (run (-1) cs (resetPolicy s)))) /\
  (1 = -1 \/ 1 = runningPid s \/ In (NewProcess 1) cs).
Proof.
  cbv zeta.
  assert (H : In 1 (dispatched
                      (fst (run (-1) [Preempt; Preempt; Dispatch]
                              (resetPolicy (mkPolicy [4; 5] 1 1 0))))))
    by (left; reflexivity).
  split; [exact H |].
  apply (reset_forgets_queue (-1) _ (mkPolicy [4; 5] 1 1 0) 1 H).
Defined.
